(** * xonsh: the completer dispatcher and the parser front end

    A shallow embedding of [xonsh/completer.py] and of the parts of
    [xonsh/parser.py] that carry behaviour ([Location], [Parser.parse],
    the error path and the precedence table), followed by the properties
    the specification states about them.

    Python strings are modelled by [string]; the models agree with Python
    on ASCII text, where [len] counts characters and the order on strings
    is the order on code points. *)

From Stdlib Require Import ZArith Ascii String List.
From stdpp Require Import gmap strings list sorting pretty.

(** ** Python runtime notions shared by both modules *)

Module Py.

(** Exceptions.  [OtherError cls] stands for an exception of any class
    [cls] that is not [StopIteration] (nor derived from it). *)
Inductive exn : Type :=
| StopIteration
| ValueError
| TypeError
| UnboundLocalError (name : string)
| NameError (name : string)
| AttributeError (attr : string)
| SyntaxError (text : string)
| OtherError (cls : string).

(** [except StopIteration:] *)
Definition is_StopIteration (e : exn) : bool :=
  match e with
  | StopIteration => true
  | _ => false
  end.

Definition is_SyntaxError (e : exn) : bool :=
  match e with
  | SyntaxError _ => true
  | _ => false
  end.

(** The outcome of evaluating an expression: a value or a raised
    exception. *)
Inductive result (A : Type) : Type :=
| OK (a : A)
| Raise (e : exn).
Arguments OK {A} a.
Arguments Raise {A} e.

#[global] Instance result_ret : MRet result := @OK.
#[global] Instance result_bind : MBind result :=
  fun A B k m => match m with
                 | OK a => k a
                 | Raise e => Raise e
                 end.

(** [len(s)] for a [str]. *)
Definition len (s : string) : Z := Z.of_nat (String.length s).

(** Iterating over a [str] yields its characters as one-character
    strings. *)
Fixpoint chars (s : string) : list string :=
  match s with
  | EmptyString => []
  | String c s' => String c EmptyString :: chars s'
  end.

(** [a <= b] on [str]. *)
Definition str_le (a b : string) : Prop := String.leb a b = true.

#[global] Instance str_le_dec a b : Decision (str_le a b).
Proof. unfold str_le. apply _. Defined.

(** [sorted(xs)] for a list of [str].  Python's sort is a stable merge
    sort; on strings, where equal keys are identical values, any sort
    returns the same list. *)
Definition sorted_strs (xs : list string) : list string :=
  merge_sort str_le xs.

End Py.

Import Py.

(** ** xonsh/completer.py *)

Module Completer.

(** The values a provider hands back, and the ones [complete] returns.
    Collections hold strings: they are collections of candidates. *)
Inductive value : Type :=
| VNone
| VInt (n : Z)
| VStr (s : string)
| VSet (xs : gset string)
| VList (xs : list string)
| VTuple (xs : list string).

(** What a provider returns: one value, or a 2-tuple of values.
    [Bare (VTuple [a; b])] and [Pair (VStr a) (VStr b)] denote the same
    Python tuple; [interpret] below treats them alike
    ([interpret_two_strings]). *)
Inductive retval : Type :=
| Bare (v : value)
| Pair (a b : value).

Inductive outcome : Type :=
| Returns (out : retval)
| Raises (e : exn).

(** [isinstance(out, abc.Sequence)]: tuples, lists and strings are
    sequences; [None], integers and sets are not. *)
Definition isinstance_Sequence (out : retval) : bool :=
  match out with
  | Pair _ _ => true
  | Bare (VStr _) | Bare (VList _) | Bare (VTuple _) => true
  | Bare VNone | Bare (VInt _) | Bare (VSet _) => false
  end.

(** [res, lprefix = out] for a sequence [out]: exactly two items, or
    [ValueError]. *)
Definition unpack2 (out : retval) : result (value * value) :=
  match out with
  | Pair a b => OK (a, b)
  | Bare (VList [a; b]) | Bare (VTuple [a; b]) => OK (VStr a, VStr b)
  | Bare (VStr s) =>
      match chars s with
      | [a; b] => OK (VStr a, VStr b)
      | _ => Raise ValueError
      end
  | Bare (VList _) | Bare (VTuple _) => Raise ValueError
  | Bare VNone | Bare (VInt _) | Bare (VSet _) => Raise TypeError
  end.

(** [len(res)] *)
Definition py_len (res : value) : result Z :=
  match res with
  | VNone | VInt _ => Raise TypeError
  | VStr s => OK (len s)
  | VSet xs => OK (Z.of_nat (size xs))
  | VList xs | VTuple xs => OK (Z.of_nat (length xs))
  end.

(** [res is not None and len(res) != 0] *)
Definition has_candidates (res : value) : result bool :=
  match res with
  | VNone => OK false
  | _ => n ← py_len res; OK (negb (n =? 0)%Z)
  end.

(** [sorted(res)] *)
Definition py_sorted (res : value) : result (list string) :=
  match res with
  | VNone | VInt _ => Raise TypeError
  | VStr s => OK (sorted_strs (chars s))
  | VSet xs => OK (sorted_strs (elements xs))
  | VList xs | VTuple xs => OK (sorted_strs xs)
  end.

(** [ctx = ctx or {}]: a missing or empty context becomes the empty
    one. *)
Definition ctx_or_empty (ctx : option (gset string)) : gset string :=
  match ctx with
  | None => ∅
  | Some c => if decide (c = ∅) then ∅ else c
  end.

(** *** Vocabulary of the specification

    The next definitions are not part of the source: they name the
    notions the specification uses when it speaks about providers.

    The candidates a value holds when it is a set, a list or a tuple of
    strings. *)
Definition candidates_of (c : value) : option (list string) :=
  match c with
  | VSet xs => Some (elements xs)
  | VList xs | VTuple xs => Some xs
  | VNone | VInt _ | VStr _ => None
  end.

(** An absent result ([None]) or a collection without candidates. *)
Definition empty_or_absent (c : value) : bool :=
  match c with
  | VNone => true
  | VSet xs => bool_decide (xs = ∅)
  | VList [] | VTuple [] => true
  | _ => false
  end.

(** The return values [complete] can digest without raising: [None], a
    set, or a pair whose first item is [None] or has a length. *)
Definition well_formed (out : retval) : bool :=
  match out with
  | Bare VNone | Bare (VSet _) => true
  | Pair (VInt _) _ => false
  | Pair _ _ => true
  | Bare _ => false
  end.

(** The return values [complete] cannot digest, with the exception it
    raises on them: an integer where a collection is due, or a bare
    string, list or tuple that does not have exactly two items. *)
Definition rejected (out : retval) : option exn :=
  match out with
  | Bare (VInt _) | Pair (VInt _) _ => Some TypeError
  | Bare (VStr s) =>
      if Nat.eqb (String.length s) 2 then None else Some ValueError
  | Bare (VList xs) | Bare (VTuple xs) =>
      if Nat.eqb (length xs) 2 then None else Some ValueError
  | _ => None
  end.

Section Complete.

(** Whatever a provider can read and change when it is called. *)
Context {World : Type}.

(** A completion provider: called with
    [(prefix, line, begidx, endidx, ctx)], it returns or raises, and may
    change the world. *)
Definition Provider : Type :=
  string → string → Z → Z → gset string → World → outcome * World.

(** [builtins.__xonsh_completers__]: an insertion-ordered mapping from
    provider name to provider. *)
Definition Registry : Type := list (string * Provider).

Definition values (reg : Registry) : list Provider := map snd reg.

Section Call.

Variables (prefix line : string) (begidx endidx : Z) (ctx : gset string).

(** Lines 44-48: split the provider's return value into [res] and
    [lprefix]. *)
Definition interpret (out : retval) : result (value * value) :=
  if isinstance_Sequence out then unpack2 out
  else match out with
       | Bare v => OK (v, VInt (len prefix))
       | Pair a b => OK (a, b)
       end.

(** Lines 39-51: the loop over the providers.  [lprefix] is the local
    variable of that name: [None] while it is unbound. *)
Fixpoint for_each (funcs : list Provider) (lprefix : option value) (w : World)
  : result (value * value) * World :=
  match funcs with
  | [] =>
      (match lprefix with
       | Some l => OK (VSet ∅, l)
       | None => Raise (UnboundLocalError "lprefix")
       end, w)
  | func :: rest =>
      match func prefix line begidx endidx ctx w with
      | (Raises e, w1) =>
          if is_StopIteration e then (OK (VSet ∅, VInt (len prefix)), w1)
          else (Raise e, w1)
      | (Returns out, w1) =>
          match interpret out with
          | Raise e => (Raise e, w1)
          | OK (res, lp) =>
              match has_candidates res with
              | Raise e => (Raise e, w1)
              | OK true => (c ← py_sorted res; OK (VTuple c, lp), w1)
              | OK false => for_each rest (Some lp) w1
              end
          end
      end
  end.

(** [yields out c lp]: the provider's return value [out] carries the
    collection [c] and the replacement length [lp]: a pair carries both,
    a bare set or [None] comes with the length of the prefix. *)
Inductive yields : retval → value → value → Prop :=
| yields_pair c lp : yields (Pair c lp) c lp
| yields_set xs : yields (Bare (VSet xs)) (VSet xs) (VInt (len prefix))
| yields_none : yields (Bare VNone) VNone (VInt (len prefix)).

(** [consulted_empty funcs w l w' l']: called in order from the world
    [w], every provider of [funcs] returns an empty or absent collection;
    [w'] is the world after the last call and [l'] the replacement length
    that call left behind ([l] when [funcs] is empty). *)
Inductive consulted_empty :
  list Provider → World → option value → World → option value → Prop :=
| consulted_nil w l : consulted_empty [] w l w l
| consulted_cons func rest w w1 out c lp l w2 l2 :
    func prefix line begidx endidx ctx w = (Returns out, w1) →
    yields out c lp →
    empty_or_absent c = true →
    consulted_empty rest w1 (Some lp) w2 l2 →
    consulted_empty (func :: rest) w l w2 l2.

(** A provider that, in every world, raises nothing but the abort signal
    and returns nothing but well-formed values. *)
Definition behaves (func : Provider) : Prop :=
  ∀ w, match fst (func prefix line begidx endidx ctx w) with
       | Raises e => is_StopIteration e = true
       | Returns out => well_formed out = true
       end.

(** The world after calling each provider of [funcs] once, in order. *)
Fixpoint calls (funcs : list Provider) (w : World) : World :=
  match funcs with
  | [] => w
  | func :: rest => calls rest (snd (func prefix line begidx endidx ctx w))
  end.

End Call.

(** [Completer.complete(prefix, line, begidx, endidx, ctx=None)], run
    against a registry in a world. *)
Definition complete (prefix line : string) (begidx endidx : Z)
    (ctx : option (gset string)) (reg : Registry) (w : World)
  : result (value * value) * World :=
  for_each prefix line begidx endidx (ctx_or_empty ctx) (values reg) None w.

End Complete.

Arguments Provider World : clear implicits.
Arguments Registry World : clear implicits.

End Completer.

(** ** xonsh/parser.py *)

Module Parser.

(** The objects that reach string formatting in this module.  [OOpaque]
    is an object known only by the text [str()] and [repr()] give for it
    (an instance without [__str__], a module, a class). *)
#[warnings="-register-all"]
Inductive obj : Type :=
| OStr (s : string)
| OInt (n : Z)
| ONone
| OOpaque (text : string)
| OTuple (items : list obj).

(** *** str() and repr() *)

Definition quote1 : ascii := "'"%char.
Definition quote2 : ascii := ascii_of_nat 34.
Definition backslash : ascii := "\"%char.

Definition hex_digit (n : nat) : ascii :=
  nth n (list_ascii_of_string "0123456789abcdef") "0"%char.

(** One character of [repr(s)], inside the quotes [q]. *)
Definition repr_char (q c : ascii) : string :=
  let n := nat_of_ascii c in
  if Ascii.eqb c backslash then String backslash (String backslash EmptyString)
  else if Ascii.eqb c q then String backslash (String q EmptyString)
  else if Nat.eqb n 9 then String backslash "t"
  else if Nat.eqb n 10 then String backslash "n"
  else if Nat.eqb n 13 then String backslash "r"
  else if (Nat.ltb n 32 || Nat.eqb n 127)%bool then
    String backslash
      (String "x" (String (hex_digit (n / 16)) (String (hex_digit (n mod 16)) EmptyString)))
  else String c EmptyString.

Fixpoint has_char (c : ascii) (s : string) : bool :=
  match s with
  | EmptyString => false
  | String d s' => (Ascii.eqb c d || has_char c s')%bool
  end.

Fixpoint repr_body (q : ascii) (s : string) : string :=
  match s with
  | EmptyString => EmptyString
  | String c s' => repr_char q c +:+ repr_body q s'
  end.

(** [repr(s)] for a [str]: single quotes, unless the text holds a single
    quote and no double quote. *)
Definition repr_str (s : string) : string :=
  let q := if (has_char quote1 s && negb (has_char quote2 s))%bool
           then quote2 else quote1 in
  String q (repr_body q s +:+ String q EmptyString).

Fixpoint join (sep : string) (xs : list string) : string :=
  match xs with
  | [] => EmptyString
  | [x] => x
  | x :: rest => x +:+ sep +:+ join sep rest
  end.

Fixpoint py_repr (o : obj) : string :=
  match o with
  | OStr s => repr_str s
  | OInt n => pretty n
  | ONone => "None"
  | OOpaque text => text
  | OTuple items =>
      match items with
      | [x] => "(" +:+ py_repr x +:+ ",)"
      | _ => "(" +:+ join ", " (map py_repr items) +:+ ")"
      end
  end.

Definition py_str (o : obj) : string :=
  match o with
  | OStr s => s
  | _ => py_repr o
  end.

(** *** class Location *)

Record Location : Type := mkLocation {
  fname : obj;
  lineno : obj;
  column : obj
}.

(** The names bound at module level when a method of this module runs. *)
Definition module_globals : list string :=
  ["print_function"; "unicode_literals"; "re"; "yacc"; "ast"; "Lexer";
   "Location"; "Parser"].

(** Reading a name inside a function body: the frame's locals, then the
    module's globals, else [NameError].  (The builtins come last in
    Python; the only name looked up through this function that is no
    local is [line], and the builtins have no [line].) *)
Fixpoint load_name (frame : list (string * obj)) (name : string) : result obj :=
  match frame with
  | (n, v) :: frame' => if String.eqb n name then OK v else load_name frame' name
  | [] =>
      if existsb (String.eqb name) module_globals then OK (OOpaque name)
      else Raise (NameError name)
  end.

(** [Location.__init__(self, fname, lineno, column=None)] *)
Definition Location_init (fname lineno column : obj) : result Location :=
  let frame := [("self", OOpaque "Location"); ("fname", fname);
                ("lineno", lineno); ("column", column)] in
  self_fname ← load_name frame "fname";
  self_lineno ← load_name frame "line";
  self_column ← load_name frame "column";
  OK (mkLocation self_fname self_lineno self_column).

(** [Location.__str__(self)] *)
Definition Location_str (self : Location) : string :=
  let s := py_str (fname self) +:+ ":" +:+ py_str (lineno self) in
  match column self with
  | ONone => s
  | c => s +:+ ":" +:+ py_str c
  end.

(** An argument of [_parse_error]: a plain object or a [Location]. *)
Inductive arg : Type :=
| AObj (o : obj)
| ALoc (l : Location).

Definition str_arg (a : arg) : string :=
  match a with
  | AObj o => py_str o
  | ALoc l => Location_str l
  end.

(** *** class Parser *)

(** A token handed over by the lexer. *)
Record Token : Type := mkToken {
  tok_type : string;
  tok_value : obj;
  tok_lineno : obj;
  tok_lexpos : Z
}.

(** The lexer instance.  Its class lives in [xonsh.lexer]; what this
    module touches are its data attributes, kept here by name, and its
    method [token_col]. *)
Record LexerObj : Type := mkLexer {
  attrs : gmap string obj;
  token_col : Token → obj
}.

Definition setattr (lx : LexerObj) (name : string) (v : obj) : LexerObj :=
  mkLexer (<[name := v]> (attrs lx)) (token_col lx).

Definition getattr (lx : LexerObj) (name : string) : result obj :=
  match attrs lx !! name with
  | Some v => OK v
  | None => Raise (AttributeError name)
  end.

(** The part of a parser instance that changes while it runs. *)
Record PState : Type := mkPState {
  lexer : LexerObj;
  _scope_stack : list (gmap string bool);
  _last_yielded_token : option Token
}.

(** The precedence table, in source order. *)
Definition precedence : list (string * list string) :=
  [ ("left", ["LOGIC_OR"]);
    ("left", ["LOGIC_AND"]);
    ("left", ["PIPE"]);
    ("left", ["XOR"]);
    ("left", ["AMPERSAND"]);
    ("left", ["EQ"; "NE"]);
    ("left", ["GT"; "GE"; "LT"; "LE"]);
    ("left", ["RSHIFT"; "LSHIFT"]);
    ("left", ["PLUS"; "MINUS"]);
    ("left", ["TIMES"; "DIVIDE"; "MOD"]);
    ("left", ["POW"]) ].

(** The entry of the table an operator token sits in, with the position
    of that entry counted from 1. *)
Fixpoint prec_lookup (table : list (string * list string)) (level : nat)
    (tok : string) : option (string * nat) :=
  match table with
  | [] => None
  | (assoc, toks) :: table' =>
      if existsb (String.eqb tok) toks then Some (assoc, level)
      else prec_lookup table' (S level) tok
  end.

Definition prec_of (tok : string) : option (string * nat) :=
  prec_lookup precedence 1 tok.

(** The column argument of [Location]: absent, or an integer. *)
Definition column_obj (c : option Z) : obj :=
  match c with
  | None => ONone
  | Some n => OInt n
  end.

(** *** The grammar methods of the class body

    A [def] statement of the body of [class Parser] whose name starts
    with [p_]: the line it stands on, the name it binds and its
    docstring, which holds the grammar rule. *)
Record MethodDef : Type := mkDef {
  def_line : nat;
  def_name : string;
  def_doc : option string
}.

(** The [p_] methods of [class Parser], in source order. *)
Definition Parser_rule_defs : list MethodDef :=
  [
    mkDef 159 "p_single_input" (Some "single_input : NEWLINE 
                        | simple_stmt 
                        | compound_stmt NEWLINE
        ");
    mkDef 166 "p_file_input" (Some "file_input : (NEWLINE | stmt)* ENDMARKER");
    mkDef 170 "p_eval_input" (Some "eval_input : testlist NEWLINE* ENDMARKER");
    mkDef 174 "p_decorator" (Some "decorator : AT dotted_name [ '(' [arglist] ')' ] NEWLINE
        ");
    mkDef 179 "p_decorators" (Some "decorators : decorator+");
    mkDef 183 "p_decorated" (Some "decorated : decorators (classdef | funcdef)");
    mkDef 187 "p_funcdef" (Some "funcdef : 'def' NAME parameters ['->' test] ':' suite
        ");
    mkDef 192 "p_" (Some "parameters : '(' [typedargslist] ')'
        ");
    mkDef 197 "p_" (Some "typedargslist: (tfpdef ['=' test] (',' tfpdef ['=' test])* [','
       ['*' [tfpdef] (',' tfpdef ['=' test])* [',' '**' tfpdef] | '**' tfpdef]]
     |  '*' [tfpdef] (',' tfpdef ['=' test])* [',' '**' tfpdef] | '**' tfpdef)
        ");
    mkDef 204 "p_" (Some "tfpdef: NAME [':' test]
        ");
    mkDef 209 "p_" (Some "varargslist: (vfpdef ['=' test] (',' vfpdef ['=' test])* [','
       ['*' [vfpdef] (',' vfpdef ['=' test])* [',' '**' vfpdef] | '**' vfpdef]]
     |  '*' [vfpdef] (',' vfpdef ['=' test])* [',' '**' vfpdef] | '**' vfpdef)
        ");
    mkDef 216 "p_" (Some "vfpdef : NAME");
    mkDef 220 "p_" (Some "stmt : simple_stmt | compound_stmt
        ");
    mkDef 225 "p_" (Some "simple_stmt: small_stmt (';' small_stmt)* [';'] NEWLINE
        ");
    mkDef 230 "p_" (Some "small_stmt: (expr_stmt | del_stmt | pass_stmt | flow_stmt |
             import_stmt | global_stmt | nonlocal_stmt | assert_stmt)
        ");
    mkDef 236 "p_" (Some ("expr_stmt: testlist_star_expr (augassign (yield_expr|testlist) |
                     ('=' (yield_expr|testlist_star_expr))*" +:+ ")
        "));
    mkDef 242 "p_" (Some "testlist_star_expr: (test|star_expr) (',' (test|star_expr))* [',']
        ");
    mkDef 247 "p_" (Some "augassign: ('+=' | '-=' | '*=' | '/=' | '%=' | '&=' | '|=' | '^=' |
            '<<=' | '>>=' | '**=' | '//=')
        ");
    mkDef 257 "p_" (Some "del_stmt: 'del' exprlist
        ");
    mkDef 262 "p_" (Some "pass_stmt : 'pass'
        ");
    mkDef 267 "p_" (Some "flow_stmt: break_stmt | continue_stmt | return_stmt | raise_stmt | yield_stmt
        ");
    mkDef 272 "p_" (Some "break_stmt: 'break'
        ");
    mkDef 277 "p_" (Some "continue_stmt: 'continue'
        ");
    mkDef 282 "p_" (Some "return_stmt: 'return' [testlist]
        ");
    mkDef 287 "p_" (Some "yield_stmt: yield_expr
        ");
    mkDef 292 "p_" (Some "raise_stmt: 'raise' [test ['from' test]]
        ");
    mkDef 297 "p_" (Some "import_stmt: import_name | import_from
        ");
    mkDef 302 "p_" (Some "import_name: 'import' dotted_as_names
        ");
    mkDef 311 "p_" (Some "import_from: ('from' (('.' | '...')* dotted_name | ('.' | '...')+)
              'import' ('*' | '(' import_as_names ')' | import_as_names))
        ");
    mkDef 317 "p_" (Some "import_as_name: NAME ['as' NAME]
        ");
    mkDef 322 "p_" (Some "dotted_as_name: dotted_name ['as' NAME]
        ");
    mkDef 327 "p_" (Some "import_as_names: import_as_name (',' import_as_name)* [',']
        ");
    mkDef 332 "p_" (Some "dotted_as_names: dotted_as_name (',' dotted_as_name)*
        ");
    mkDef 337 "p_" (Some "dotted_name: NAME ('.' NAME)*
        ");
    mkDef 342 "p_" (Some "global_stmt: 'global' NAME (',' NAME)*
        ");
    mkDef 347 "p_" (Some "nonlocal_stmt: 'nonlocal' NAME (',' NAME)*
        ");
    mkDef 352 "p_" (Some "assert_stmt: 'assert' test [',' test]
        ");
    mkDef 357 "p_" (Some "compound_stmt: if_stmt | while_stmt | for_stmt | try_stmt | with_stmt | funcdef | classdef | decorated
        ");
    mkDef 362 "p_" (Some "if_stmt: 'if' test ':' suite ('elif' test ':' suite)* ['else' ':' suite]
        ");
    mkDef 367 "p_" (Some "while_stmt: 'while' test ':' suite ['else' ':' suite]
        ");
    mkDef 372 "p_" (Some "for_stmt: 'for' exprlist 'in' testlist ':' suite ['else' ':' suite]
        ");
    mkDef 377 "p_" (Some "try_stmt: ('try' ':' suite
           ((except_clause ':' suite)+
            ['else' ':' suite]
            ['finally' ':' suite] |
           'finally' ':' suite))
        ");
    mkDef 386 "p_" (Some "with_stmt: 'with' with_item (',' with_item)*  ':' suite
        ");
    mkDef 391 "p_" (Some "with_item: test ['as' expr]
        ");
    mkDef 396 "p_" (Some "except_clause: 'except' [test ['as' NAME]]
        ");
    mkDef 401 "p_" (Some "suite: simple_stmt | NEWLINE INDENT stmt+ DEDENT
        ");
    mkDef 406 "p_" (Some "
        ");
    mkDef 468 "p_empty" (Some "empty : ");
    mkDef 472 "p_error" None
  ].

(** Executing a class body runs its [def] statements in order; each one
    binds its name in the namespace of the class, replacing what the
    name was bound to before. *)
Definition bind_defs (defs : list MethodDef) : gmap string MethodDef :=
  foldl (λ ns d, <[def_name d := d]> ns) ∅ defs.

(** The [p_] attributes of [class Parser] once its body has run. *)
Definition Parser_rules : gmap string MethodDef := bind_defs Parser_rule_defs.

Section WithTree.

(** The syntax trees the grammar actions build. *)
Context {Tree : Type}.

(** The object [yacc.yacc] returns, seen through its [parse] method:
    given the input text and the debug level it runs the grammar actions
    on the parser's state and returns a tree or raises. *)
Definition Engine : Type := string → Z → PState → result Tree * PState.

(** A parser instance.  [cparser] is the attribute of that name: [None]
    while no such attribute is bound. *)
Record ParserObj : Type := mkParser {
  state : PState;
  tokens : list string;
  parser : Engine;
  cparser : option Engine
}.

Definition with_state (self : ParserObj) (st : PState) : ParserObj :=
  mkParser st (tokens self) (parser self) (cparser self).

(** [Parser.__init__]: [lexer] is the built [Lexer] instance, [toks] its
    [tokens], [engine] what [yacc.yacc] returned.  [opt_rules] is empty,
    so its loop body never runs. *)
Definition Parser_init (lexer : LexerObj) (toks : list string)
    (engine : Engine) : ParserObj :=
  mkParser (mkPState lexer [∅] None) toks engine None.

(** The four assignments that open [parse] (lines 101-104). *)
Definition parse_reset (st : PState) (filename : string) : PState :=
  let lx := setattr (lexer st) "filename" (OStr filename) in
  let lx := setattr lx "lineno" (OInt 0) in
  mkPState lx [∅] None.

(** [Parser.parse(self, s, filename='<code>', debug_level=0)] *)
Definition parse (self : ParserObj) (s filename : string) (debug_level : Z)
  : result Tree * ParserObj :=
  let st := parse_reset (state self) filename in
  match cparser self with
  | None => (Raise (AttributeError "cparser"), with_state self st)
  | Some engine =>
      let '(tree, st') := engine s debug_level st in
      (tree, with_state self st')
  end.

(** [Parser._yacc_lookahead_token(self)]: the lexer's attribute
    [last]. *)
Definition _yacc_lookahead_token (self : ParserObj) : result obj :=
  getattr (lexer (state self)) "last".

(** [Parser.currloc(self, lineno, column=None)] *)
Definition currloc (self : ParserObj) (lineno column : obj) : result Location :=
  fname ← getattr (lexer (state self)) "fname";
  Location_init fname lineno column.

(** [Parser._parse_error(self, msg, loc)]: always raises. *)
Definition _parse_error {A : Type} (msg loc : arg) : result A :=
  Raise (SyntaxError (str_arg loc +:+ ": " +:+ str_arg msg)).

(** [Parser._lexer_errfunc(self, msg, line, column)] *)
Definition _lexer_errfunc {A : Type} (self : ParserObj) (msg line column : obj)
  : result A :=
  loc ← currloc self line column;
  _parse_error (AObj msg) (ALoc loc).

(** [Parser.p_error(self, p)]: [p] is the offending token, or [None] at
    the end of the input.  The assignment to [msg] ends in a comma, so
    [msg] is a 1-tuple. *)
Definition p_error {A : Type} (self : ParserObj) (p : option Token) : result A :=
  match p with
  | Some tok =>
      let msg := OTuple [OStr ("code: " +:+ py_str (tok_value tok))] in
      loc ← currloc self (tok_lineno tok)
              (token_col (lexer (state self)) tok);
      _parse_error (AObj msg) (ALoc loc)
  | None =>
      _parse_error (AObj (OStr "no further code")) (AObj (OStr EmptyString))
  end.

End WithTree.

Arguments Engine Tree : clear implicits.
Arguments ParserObj Tree : clear implicits.

End Parser.

(** ** Sample providers

    Inputs on which the properties below are exercised.  The world is the
    log of the providers called so far, oldest first. *)

Module Samples.

Import Completer.

(** A provider that records its call and then returns or raises [o]. *)
Definition logged (name : string) (o : outcome) : Provider (list string) :=
  fun _ _ _ _ _ log => (o, log ++ [name]).

Definition p_none := logged "none" (Returns (Bare VNone)).
Definition p_foobar := logged "foobar" (Returns (Bare (VSet {["foo"; "bar"]}))).
Definition p_baz := logged "baz" (Returns (Pair (VSet {["baz"]}) (VInt 7))).
Definition p_stop := logged "stop" (Raises StopIteration).
Definition p_boom := logged "boom" (Raises (OtherError "KeyError")).
Definition p_dup :=
  logged "dup" (Returns (Pair (VList ["foo"; "foo"]) (VInt 3))).
Definition p_list3 :=
  logged "list3" (Returns (Bare (VList ["foo"; "bar"; "baz"]))).
Definition p_list2 := logged "list2" (Returns (Bare (VList ["foo"; "bar"]))).
Definition p_empty_pair := logged "empty" (Returns (Pair (VSet ∅) (VInt 5))).

End Samples.

(** * Properties *)

(** ** Sorting strings *)

Section Sorting.

#[local] Instance str_le_total : Total str_le.
Proof. intros a b. unfold str_le. apply String.leb_total. Qed.

Lemma sorted_strs_Sorted (xs : list string) : Sorted str_le (sorted_strs xs).
Proof. unfold sorted_strs. apply (Sorted_merge_sort str_le). Qed.

Lemma sorted_strs_Permutation (xs : list string) : sorted_strs xs ≡ₚ xs.
Proof. unfold sorted_strs. apply merge_sort_Permutation. Qed.

Lemma sorted_strs_elem_of (xs : list string) (x : string) :
  x ∈ sorted_strs xs ↔ x ∈ xs.
Proof. by rewrite sorted_strs_Permutation. Qed.

Lemma sorted_strs_NoDup (xs : list string) : NoDup xs → NoDup (sorted_strs xs).
Proof. by rewrite sorted_strs_Permutation. Qed.

Lemma sorted_strs_nonempty (xs : list string) : xs ≠ [] → sorted_strs xs ≠ [].
Proof.
  intros Hxs Hnil. apply Hxs.
  apply Permutation_nil_r. rewrite <- Hnil.
  symmetry. apply sorted_strs_Permutation.
Qed.

Lemma sorted_strs_length (xs : list string) :
  length (sorted_strs xs) = length xs.
Proof. by rewrite sorted_strs_Permutation. Qed.

End Sorting.

(** ** The completer *)

Section CompleterFacts.

Import Completer.

Context {World : Type}.
Variables (prefix line : string) (begidx endidx : Z) (ctx : gset string).

#[local] Abbreviation interpret := (interpret prefix).
#[local] Abbreviation for_each :=
  (for_each (World:=World) prefix line begidx endidx ctx).
#[local] Abbreviation consulted_empty :=
  (consulted_empty (World:=World) prefix line begidx endidx ctx).
#[local] Abbreviation yields := (yields prefix).

(** Both spellings of a 2-tuple of strings unpack alike. *)
Lemma interpret_two_strings (a b : string) :
  interpret (Bare (VTuple [a; b])) = interpret (Pair (VStr a) (VStr b)).
Proof. reflexivity. Qed.

Lemma interpret_yields out c lp : yields out c lp → interpret out = OK (c, lp).
Proof. by destruct 1. Qed.

Lemma has_candidates_empty c :
  empty_or_absent c = true → has_candidates c = OK false.
Proof.
  destruct c as [| n | s | xs | xs | xs]; simpl; try done.
  - intros Hxs. apply bool_decide_eq_true in Hxs. subst xs.
    by rewrite size_empty.
  - by destruct xs.
  - by destruct xs.
Qed.

Lemma has_candidates_some c xs :
  candidates_of c = Some xs → xs ≠ [] →
  has_candidates c = OK true ∧ py_sorted c = OK (sorted_strs xs).
Proof.
  destruct c as [| n | s | ys | ys | ys]; simpl; try done;
    intros [= <-] Hne; split; try done.
  - assert (size ys ≠ 0) as Hsz.
    { intros Hsz. apply size_empty_inv in Hsz.
      apply leibniz_equiv in Hsz. subst ys.
      apply Hne. apply elements_empty. }
    unfold mbind, result_bind, py_len; simpl.
    destruct (size ys) eqn:E; [done|]. done.
  - destruct ys; [done|]. done.
  - destruct ys; [done|]. done.
Qed.

(** One quiet provider: the loop moves on with its replacement length. *)
Lemma for_each_step_empty func rest l w w1 out c lp :
  func prefix line begidx endidx ctx w = (Returns out, w1) →
  yields out c lp →
  empty_or_absent c = true →
  for_each (func :: rest) l w = for_each rest (Some lp) w1.
Proof.
  intros Hcall Hy He. simpl. rewrite Hcall.
  rewrite (interpret_yields _ _ _ Hy).
  by rewrite (has_candidates_empty _ He).
Qed.

(** A run of quiet providers is skipped as a whole. *)
Lemma for_each_skip pre rest w l w1 l1 :
  consulted_empty pre w l w1 l1 →
  for_each (pre ++ rest) l w = for_each rest l1 w1.
Proof.
  induction 1 as [| func fs w w1 out c lp l w2 l2 Hcall Hy He _ IH]; [done|].
  rewrite <- app_comm_cons.
  rewrite (for_each_step_empty _ _ _ _ _ _ _ _ Hcall Hy He). apply IH.
Qed.

Lemma consulted_empty_bound funcs w l w1 l1 :
  consulted_empty funcs w l w1 l1 → funcs ≠ [] → is_Some l1.
Proof.
  induction 1 as [| func fs w w1 out c lp l w2 l2 _ _ _ Hrest IH]; [done|].
  intros _. destruct fs as [| g fs].
  - inversion Hrest; subst. by eexists.
  - by apply IH.
Qed.

(** The first provider with candidates decides the call. *)
Lemma for_each_step_some func rest l w w1 out c lp xs :
  func prefix line begidx endidx ctx w = (Returns out, w1) →
  yields out c lp →
  candidates_of c = Some xs → xs ≠ [] →
  for_each (func :: rest) l w = (OK (VTuple (sorted_strs xs), lp), w1).
Proof.
  intros Hcall Hy Hc Hne. simpl. rewrite Hcall.
  rewrite (interpret_yields _ _ _ Hy).
  destruct (has_candidates_some _ _ Hc Hne) as [-> ->]. done.
Qed.

Lemma for_each_step_raise func rest l w w1 e :
  func prefix line begidx endidx ctx w = (Raises e, w1) →
  for_each (func :: rest) l w =
    if is_StopIteration e then (OK (VSet ∅, VInt (len prefix)), w1)
    else (Raise e, w1).
Proof. intros Hcall. simpl. by rewrite Hcall. Qed.

End CompleterFacts.

Section CompleterTotality.

Import Completer.

Context {World : Type}.
Variables (prefix line : string) (begidx endidx : Z) (ctx : gset string).

(** A value with a length either has no items or sorts into a non-empty
    tuple. *)
Lemma sized_value_sorts c :
  (∀ n, c ≠ VInt n) →
  has_candidates c = OK false ∨
  (has_candidates c = OK true ∧
   ∃ ys, py_sorted c = OK ys ∧ ys ≠ [] ∧ Sorted str_le ys).
Proof.
  intros Hc. destruct c as [| n | s | xs | xs | xs]; simpl.
  - by left.
  - by destruct (Hc n).
  - destruct s as [| a s]; [by left|]. right. split; [done|].
    eexists. split; [done|].
    split; [by apply sorted_strs_nonempty | apply sorted_strs_Sorted].
  - destruct (decide (xs = ∅)) as [-> | Hne].
    + left. by rewrite size_empty.
    + right.
      assert (elements xs ≠ []) as Hel.
      { intros Hel. apply Hne. apply leibniz_equiv.
        by apply elements_empty_inv. }
      assert (size xs ≠ 0) as Hsz.
      { intros Hsz. apply size_empty_inv in Hsz.
        apply Hne. by apply leibniz_equiv. }
      split.
      * unfold mbind, result_bind. destruct (size xs); done.
      * eexists. split; [done|].
        split; [by apply sorted_strs_nonempty | apply sorted_strs_Sorted].
  - destruct xs as [| a xs]; [by left|]. right. split; [done|].
    eexists. split; [done|].
    split; [by apply sorted_strs_nonempty | apply sorted_strs_Sorted].
  - destruct xs as [| a xs]; [by left|]. right. split; [done|].
    eexists. split; [done|].
    split; [by apply sorted_strs_nonempty | apply sorted_strs_Sorted].
Qed.

Lemma well_formed_interpret out :
  well_formed out = true →
  ∃ c lp, interpret prefix out = OK (c, lp) ∧ ∀ n, c ≠ VInt n.
Proof.
  destruct out as [v | a b]; simpl.
  - destruct v; try done; intros _; eexists _, _; split; done.
  - destruct a; try done; intros _; eexists _, _; split; done.
Qed.

(** With well-behaved providers the loop returns, provided it has a
    provider to call or a replacement length already at hand. *)
Lemma for_each_returns funcs :
  Forall (behaves prefix line begidx endidx ctx) funcs →
  ∀ (l : option value) (w : World),
    funcs ≠ [] ∨ is_Some l →
    ∃ c lp w',
      for_each prefix line begidx endidx ctx funcs l w = (OK (c, lp), w') ∧
      (c = VSet ∅ ∨ ∃ ys, c = VTuple ys ∧ ys ≠ [] ∧ Sorted str_le ys).
Proof.
  induction 1 as [| func rest Hf _ IH]; intros l w Hl.
  - destruct Hl as [Hl | [v ->]]; [done|]. simpl. eexists _, _, _. eauto.
  - simpl. specialize (Hf w).
    destruct (func prefix line begidx endidx ctx w) as [[out | e] w1];
      simpl in Hf.
    + destruct (well_formed_interpret _ Hf) as (c & lp & -> & Hc).
      destruct (sized_value_sorts c Hc) as [-> | [-> (ys & -> & Hys & Hs)]].
      * apply IH. right. by eexists.
      * simpl. eexists _, _, _. split; [done|]. right. eauto.
    + rewrite Hf. eexists _, _, _. eauto.
Qed.

End CompleterTotality.

(** ** What the specification says about [complete] *)

Section CompleterClaims.

Import Completer.

Context {World : Type}.

Lemma values_app (pre post : Registry World) :
  values (pre ++ post) = values pre ++ values post.
Proof. apply map_app. Qed.

(** Where every provider of a non-empty registry returns an empty or
    absent collection, [complete] returns the empty set with the
    replacement length the last provider left behind. *)
Lemma complete_all_empty prefix line begidx endidx ctx
    (reg : Registry World) w w1 l1 :
  consulted_empty prefix line begidx endidx (ctx_or_empty ctx)
    (values reg) w None w1 (Some l1) →
  complete prefix line begidx endidx ctx reg w = (OK (VSet ∅, l1), w1).
Proof.
  intros Hrun. unfold complete.
  rewrite <- (app_nil_r (values reg)).
  by rewrite (for_each_skip _ _ _ _ _ _ _ _ _ _ _ Hrun).
Qed.

(** C1 (as amended): if the providers before [func] each return an empty
    or absent collection and [func] yields a non-empty set, list or tuple
    of candidates - as a bare set, or as the first item of a pair - then
    [complete] returns those candidates sorted, with the replacement
    length [func] gave (the length of the prefix for a bare set), in the
    world [func] left: no provider after it is called.  The result holds
    the provider's candidates, each as often as the provider listed it;
    for a set that is once each. *)
Theorem complete_first_nonempty prefix line begidx endidx ctx
    (pre post : Registry World) name func w w1 w2 l1 out c lp xs :
  consulted_empty prefix line begidx endidx (ctx_or_empty ctx)
    (values pre) w None w1 l1 →
  func prefix line begidx endidx (ctx_or_empty ctx) w1 = (Returns out, w2) →
  yields prefix out c lp →
  candidates_of c = Some xs →
  xs ≠ [] →
  complete prefix line begidx endidx ctx (pre ++ (name, func) :: post) w
    = (OK (VTuple (sorted_strs xs), lp), w2)
  ∧ Sorted str_le (sorted_strs xs)
  ∧ sorted_strs xs ≡ₚ xs
  ∧ (∀ s, c = VSet s →
       NoDup (sorted_strs xs) ∧ ∀ x, x ∈ sorted_strs xs ↔ x ∈ s).
Proof.
  intros Hpre Hcall Hy Hc Hne. repeat split.
  - unfold complete. rewrite values_app. simpl.
    rewrite (for_each_skip _ _ _ _ _ _ _ _ _ _ _ Hpre).
    by apply (for_each_step_some _ _ _ _ _ _ _ _ _ _ _ _ _ _ Hcall Hy Hc Hne).
  - apply sorted_strs_Sorted.
  - apply sorted_strs_Permutation.
  - subst c. injection Hc as <-.
    apply sorted_strs_NoDup, NoDup_elements.
  - subst c. injection Hc as <-.
    rewrite sorted_strs_elem_of. apply elem_of_elements.
  - subst c. injection Hc as <-.
    rewrite sorted_strs_elem_of. apply elem_of_elements.
Qed.

(** C2: if the providers before [func] each return an empty or absent
    collection and [func] raises the abort signal, [complete] returns the
    empty set with the length of the prefix, in the world [func] left,
    whatever providers come after it. *)
Theorem complete_abort prefix line begidx endidx ctx
    (pre post : Registry World) name func w w1 w2 l1 :
  consulted_empty prefix line begidx endidx (ctx_or_empty ctx)
    (values pre) w None w1 l1 →
  func prefix line begidx endidx (ctx_or_empty ctx) w1
    = (Raises StopIteration, w2) →
  complete prefix line begidx endidx ctx (pre ++ (name, func) :: post) w
    = (OK (VSet ∅, VInt (len prefix)), w2).
Proof.
  intros Hpre Hcall. unfold complete. rewrite values_app. simpl.
  rewrite (for_each_skip _ _ _ _ _ _ _ _ _ _ _ Hpre).
  by rewrite (for_each_step_raise _ _ _ _ _ _ _ _ _ _ _ Hcall).
Qed.

(** C10: if the providers before [func] each return an empty or absent
    collection and [func] raises an exception other than the abort
    signal, [complete] raises that same exception in the world [func]
    left: no result is returned and no later provider is called. *)
Theorem complete_propagates prefix line begidx endidx ctx
    (pre post : Registry World) name func w w1 w2 l1 e :
  consulted_empty prefix line begidx endidx (ctx_or_empty ctx)
    (values pre) w None w1 l1 →
  func prefix line begidx endidx (ctx_or_empty ctx) w1 = (Raises e, w2) →
  is_StopIteration e = false →
  complete prefix line begidx endidx ctx (pre ++ (name, func) :: post) w
    = (Raise e, w2).
Proof.
  intros Hpre Hcall He. unfold complete. rewrite values_app. simpl.
  rewrite (for_each_skip _ _ _ _ _ _ _ _ _ _ _ Hpre).
  rewrite (for_each_step_raise _ _ _ _ _ _ _ _ _ _ _ Hcall). by rewrite He.
Qed.

(** C4 (the empty registry): with no provider registered the loop body
    never runs, [lprefix] is still unbound at the final [return], and
    [complete] raises [UnboundLocalError] instead of returning the empty
    set with the length of the prefix. *)
Theorem complete_empty_registry_unbound prefix line begidx endidx ctx
    (w : World) :
  complete prefix line begidx endidx ctx [] w
    = (Raise (UnboundLocalError "lprefix"), w).
Proof. reflexivity. Qed.

(** C3 (as amended): for a registry with at least one provider, where
    every provider raises nothing but the abort signal and returns
    nothing but [None], a set, or a pair whose first item is [None] or
    has a length, [complete] raises nothing: it returns a pair whose
    candidates are the empty set or a non-empty sorted tuple.  An
    exception other than the abort signal, raised by a provider that is
    reached, does propagate to the caller. *)
Theorem complete_returns_when_providers_behave prefix line begidx endidx ctx
    (reg : Registry World) (w : World) :
  (reg ≠ [] →
   Forall (behaves prefix line begidx endidx (ctx_or_empty ctx)) (values reg) →
   ∃ c lp w',
     complete prefix line begidx endidx ctx reg w = (OK (c, lp), w') ∧
     (c = VSet ∅ ∨ ∃ ys, c = VTuple ys ∧ ys ≠ [] ∧ Sorted str_le ys))
  ∧ (∀ pre post name func w1 w2 l1 e,
       reg = pre ++ (name, func) :: post →
       consulted_empty prefix line begidx endidx (ctx_or_empty ctx)
         (values pre) w None w1 l1 →
       func prefix line begidx endidx (ctx_or_empty ctx) w1 = (Raises e, w2) →
       is_StopIteration e = false →
       complete prefix line begidx endidx ctx reg w = (Raise e, w2)).
Proof.
  split.
  - intros Hreg Hall. unfold complete.
    apply for_each_returns; [done|]. left.
    destruct reg; [done|]. done.
  - intros pre post name func w1 w2 l1 e -> Hpre Hcall He.
    unfold complete. rewrite values_app. simpl.
    rewrite (for_each_skip _ _ _ _ _ _ _ _ _ _ _ Hpre).
    rewrite (for_each_step_raise _ _ _ _ _ _ _ _ _ _ _ Hcall). by rewrite He.
Qed.

(** C5 (as amended): a pair is split into its two items, and a bare
    value that is no sequence - a set of candidates - is taken whole,
    with the length of the prefix as replacement length; [complete]
    returns accordingly when the first provider yields candidates.  A
    bare list or tuple of candidates is a sequence and is unpacked as a
    pair: [complete] raises [ValueError] unless it has exactly two items,
    and then takes the first as the candidates and the second as the
    replacement length. *)
Theorem complete_reads_return_value prefix line begidx endidx ctx
    (rest : Registry World) name func w w1 out :
  func prefix line begidx endidx (ctx_or_empty ctx) w = (Returns out, w1) →
  (∀ c lp, out = Pair c lp → interpret prefix out = OK (c, lp))
  ∧ (∀ v, out = Bare v → isinstance_Sequence out = false →
       interpret prefix out = OK (v, VInt (len prefix)))
  ∧ (∀ c lp xs, out = Pair c lp → candidates_of c = Some xs → xs ≠ [] →
       complete prefix line begidx endidx ctx ((name, func) :: rest) w
         = (OK (VTuple (sorted_strs xs), lp), w1))
  ∧ (∀ s, out = Bare (VSet s) → s ≠ ∅ →
       complete prefix line begidx endidx ctx ((name, func) :: rest) w
         = (OK (VTuple (sorted_strs (elements s)), VInt (len prefix)), w1))
  ∧ (∀ xs, out = Bare (VList xs) ∨ out = Bare (VTuple xs) →
       length xs ≠ 2 →
       interpret prefix out = Raise ValueError
       ∧ complete prefix line begidx endidx ctx ((name, func) :: rest) w
         = (Raise ValueError, w1))
  ∧ (∀ a b, out = Bare (VList [a; b]) ∨ out = Bare (VTuple [a; b]) →
       interpret prefix out = OK (VStr a, VStr b)
       ∧ (a ≠ EmptyString →
          complete prefix line begidx endidx ctx ((name, func) :: rest) w
            = (OK (VTuple (sorted_strs (chars a)), VStr b), w1))
       ∧ (a = EmptyString →
          complete prefix line begidx endidx ctx ((name, func) :: rest) w
            = for_each prefix line begidx endidx (ctx_or_empty ctx)
                (values rest) (Some (VStr b)) w1)).
Proof.
  intros Hcall.
  split; [by intros c lp ->|].
  split; [intros v -> Hseq; unfold interpret; by rewrite Hseq|].
  split.
  { intros c lp xs -> Hc Hne. unfold complete. simpl values.
    apply (for_each_step_some _ _ _ _ _ _ _ _ _ _ _ _ _ _ Hcall
             (yields_pair _ _ _) Hc Hne). }
  split.
  { intros s -> Hne. unfold complete. simpl values.
    apply (for_each_step_some _ _ _ _ _ _ _ _ _ _ _ _ _ _ Hcall
             (yields_set _ _)); [done|].
    intros Hel. apply Hne. apply leibniz_equiv. by apply elements_empty_inv. }
  split.
  { intros xs Hout Hlen.
    assert (interpret prefix out = Raise ValueError) as Hi.
    { destruct Hout as [-> | ->]; unfold interpret; simpl;
        by destruct xs as [| a [| b [| c xs]]]. }
    split; [exact Hi|].
    unfold complete. simpl. rewrite Hcall. by rewrite Hi. }
  intros a b Hout.
  assert (interpret prefix out = OK (VStr a, VStr b)) as Hi
    by (by destruct Hout as [-> | ->]).
  split; [exact Hi|]. split.
  - intros Ha. unfold complete. simpl. rewrite Hcall, Hi.
    by destruct a.
  - intros ->. unfold complete. simpl. by rewrite Hcall, Hi.
Qed.

End CompleterClaims.

(** ** The completer on sample registries *)

Section CompleterSamples.

Import Completer Samples.

(** The call [complete("f", "f", 0, 1)] on the registry
    [none, foobar, baz]: the first provider returns [None], the second
    wins, the third is never called. *)
Lemma complete_first_nonempty_witness :
  consulted_empty "f" "f" 0 1 ∅ [p_none] [] None ["none"] (Some (VInt 1))
  ∧ complete "f" "f" 0 1 None
      ([("none", p_none)] ++ ("foobar", p_foobar) :: [("baz", p_baz)]) []
    = (OK (VTuple ["bar"; "foo"], VInt 1), ["none"; "foobar"]).
Proof.
  assert (consulted_empty "f" "f" 0 1 ∅ [p_none] [] None ["none"]
            (Some (VInt 1))) as Hpre.
  { eapply consulted_cons;
      [reflexivity | apply yields_none | reflexivity | apply consulted_nil]. }
  split; [exact Hpre|].
  refine (proj1 (complete_first_nonempty "f" "f" 0 1 None
            [("none", p_none)] [("baz", p_baz)] "foobar" p_foobar
            [] ["none"] ["none"; "foobar"] (Some (VInt 1))
            (Bare (VSet {["foo"; "bar"]})) (VSet {["foo"; "bar"]}) (VInt 1)
            (elements ({["foo"; "bar"]} : gset string))
            Hpre _ _ _ _)).
  - reflexivity.
  - apply (yields_set "f").
  - reflexivity.
  - vm_compute. discriminate.
Defined.

(** On [none, stop, baz] the abort of the second provider ends the call
    before [baz] is reached. *)
Lemma complete_abort_witness :
  complete "f" "f" 0 1 None
      ([("none", p_none)] ++ ("stop", p_stop) :: [("baz", p_baz)]) []
    = (OK (VSet ∅, VInt 1), ["none"; "stop"]).
Proof.
  refine (complete_abort "f" "f" 0 1 None
            [("none", p_none)] [("baz", p_baz)] "stop" p_stop
            [] ["none"] ["none"; "stop"] (Some (VInt 1)) _ _).
  - eapply consulted_cons;
      [reflexivity | apply yields_none | reflexivity | apply consulted_nil].
  - reflexivity.
Defined.

(** On [none, boom, baz] the [KeyError] of the second provider leaves
    [complete] as it is. *)
Lemma complete_propagates_witness :
  complete "f" "f" 0 1 None
      ([("none", p_none)] ++ ("boom", p_boom) :: [("baz", p_baz)]) []
    = (Raise (OtherError "KeyError"), ["none"; "boom"]).
Proof.
  refine (complete_propagates "f" "f" 0 1 None
            [("none", p_none)] [("baz", p_baz)] "boom" p_boom
            [] ["none"] ["none"; "boom"] (Some (VInt 1))
            (OtherError "KeyError") _ _ _).
  - eapply consulted_cons;
      [reflexivity | apply yields_none | reflexivity | apply consulted_nil].
  - reflexivity.
  - reflexivity.
Defined.

(** The registry [none, foobar] holds well-behaved providers only, and
    [complete] returns a sorted tuple on it; on [none, boom, baz] the
    [KeyError] of [boom] reaches the caller. *)
Lemma complete_returns_when_providers_behave_witness :
  (∃ c lp w',
     complete "f" "f" 0 1 None [("none", p_none); ("foobar", p_foobar)] []
       = (OK (c, lp), w') ∧
     (c = VSet ∅ ∨ ∃ ys, c = VTuple ys ∧ ys ≠ [] ∧ Sorted str_le ys))
  ∧ complete "f" "f" 0 1 None [("none", p_none); ("foobar", p_foobar)] []
    = (OK (VTuple ["bar"; "foo"], VInt 1), ["none"; "foobar"])
  ∧ complete "f" "f" 0 1 None
      [("none", p_none); ("boom", p_boom); ("baz", p_baz)] []
    = (Raise (OtherError "KeyError"), ["none"; "boom"]).
Proof.
  split; [|split].
  - refine (proj1 (complete_returns_when_providers_behave "f" "f" 0 1 None
              [("none", p_none); ("foobar", p_foobar)] []) _ _).
    + discriminate.
    + repeat constructor.
  - reflexivity.
  - refine (proj2 (complete_returns_when_providers_behave "f" "f" 0 1 None
              [("none", p_none); ("boom", p_boom); ("baz", p_baz)] [])
              [("none", p_none)] [("baz", p_baz)] "boom" p_boom
              ["none"] ["none"; "boom"] (Some (VInt 1))
              (OtherError "KeyError") _ _ _ _).
    + reflexivity.
    + eapply consulted_cons;
        [reflexivity | apply yields_none | reflexivity | apply consulted_nil].
    + reflexivity.
    + reflexivity.
Defined.

(** [baz] returns a pair, and both of its items come back; [list3]
    returns a bare list of three candidates, and [complete] raises. *)
Lemma complete_reads_return_value_witness :
  complete "f" "f" 0 1 None [("baz", p_baz); ("foobar", p_foobar)] []
    = (OK (VTuple ["baz"], VInt 7), ["baz"])
  ∧ complete "f" "f" 0 1 None [("list3", p_list3); ("foobar", p_foobar)] []
    = (Raise ValueError, ["list3"])
  ∧ complete "f" "f" 0 1 None [("list2", p_list2); ("foobar", p_foobar)] []
    = (OK (VTuple (sorted_strs (chars "foo")), VStr "bar"), ["list2"]).
Proof.
  split; [|split].
  - refine (proj1 (proj2 (proj2 (complete_reads_return_value "f" "f" 0 1 None
              [("foobar", p_foobar)] "baz" p_baz [] ["baz"]
              (Pair (VSet {["baz"]}) (VInt 7)) _)))
              (VSet {["baz"]}) (VInt 7) (elements ({["baz"]} : gset string))
              _ _ _).
    + reflexivity.
    + reflexivity.
    + reflexivity.
    + vm_compute. discriminate.
  - refine (proj2 (proj1 (proj2 (proj2 (proj2 (proj2
              (complete_reads_return_value "f" "f" 0 1 None
                 [("foobar", p_foobar)] "list3" p_list3 [] ["list3"]
                 (Bare (VList ["foo"; "bar"; "baz"])) _)))))
              ["foo"; "bar"; "baz"] _ _)).
    + reflexivity.
    + by left.
    + discriminate.
  - refine (proj1 (proj2 (proj2 (proj2 (proj2 (proj2 (proj2
              (complete_reads_return_value "f" "f" 0 1 None
                 [("foobar", p_foobar)] "list2" p_list2 [] ["list2"]
                 (Bare (VList ["foo"; "bar"])) _)))))
              "foo" "bar" _)) _).
    + reflexivity.
    + by left.
    + discriminate.
Defined.

(** The example of the specification: the first provider returns
    [{"foo", "bar"}], the second [{"baz"}] with a length of its own; the
    call returns [("bar", "foo")] and the second provider is not
    called. *)
Example complete_short_circuit :
  complete "f" "f" 0 1 None [("foobar", p_foobar); ("baz", p_baz)] []
    = (OK (VTuple ["bar"; "foo"], VInt 1), ["foobar"]).
Proof. reflexivity. Qed.

(** C1 as stated fails: a provider whose pair holds the list
    [["foo", "foo"]] yields a non-empty collection, and [complete]
    returns both copies. *)
Lemma complete_keeps_duplicates :
  yields "f" (Pair (VList ["foo"; "foo"]) (VInt 3)) (VList ["foo"; "foo"]) (VInt 3)
  ∧ complete "f" "f" 0 1 None [("dup", p_dup)] []
    = (OK (VTuple ["foo"; "foo"], VInt 3), ["dup"])
  ∧ ¬ NoDup ["foo"; "foo"].
Proof.
  split; [apply yields_pair|]. split; [reflexivity|].
  intros Hnd. apply NoDup_cons in Hnd as [Hin _].
  apply Hin. apply list_elem_of_here.
Qed.

(** C3 as stated fails: the [KeyError] a provider raises reaches the
    caller of [complete]. *)
Lemma complete_raises_to_caller :
  complete "f" "f" 0 1 None [("boom", p_boom)] []
    = (Raise (OtherError "KeyError"), ["boom"]).
Proof. reflexivity. Qed.

(** C5 as stated fails: a bare list of three candidates is unpacked as a
    pair and [complete] raises [ValueError]; a bare list of two is split
    into a string of candidates and a replacement length. *)
Lemma complete_unpacks_bare_list :
  complete "f" "f" 0 1 None [("list3", p_list3)] []
    = (Raise ValueError, ["list3"])
  ∧ complete "f" "f" 0 1 None [("list2", p_list2)] []
    = (OK (VTuple ["f"; "o"; "o"], VStr "bar"), ["list2"]).
Proof. split; reflexivity. Qed.

End CompleterSamples.

(** ** Locations *)

Section LocationFacts.

Import Parser.

(** No name visible in the body of [Location.__init__] is [line]. *)
Lemma line_is_unbound (fname lineno column : obj) :
  load_name [("self", OOpaque "Location"); ("fname", fname);
             ("lineno", lineno); ("column", column)] "line"
  = Raise (NameError "line").
Proof. reflexivity. Qed.

(** C6 (the constructor): [Location.__init__] stores [fname] and then
    reads the name [line], which nothing binds - the parameter is called
    [lineno] - so every construction of a [Location] raises [NameError]
    and no value storing the file name, the line and the column comes
    into being. *)
Theorem Location_init_raises (fname lineno column : obj) :
  Location_init fname lineno column = Raise (NameError "line").
Proof. reflexivity. Qed.

(** The formatting itself is as the specification has it, on a location
    whose fields were set: [file:line] without a column ... *)
Lemma Location_str_no_column (f : string) (n : Z) :
  Location_str (mkLocation (OStr f) (OInt n) ONone) = f +:+ ":" +:+ pretty n.
Proof. reflexivity. Qed.

(** ... and [file:line:column] with one. *)
Lemma Location_str_column (f : string) (n c : Z) :
  Location_str (mkLocation (OStr f) (OInt n) (OInt c))
  = (f +:+ ":" +:+ pretty n) +:+ ":" +:+ pretty c.
Proof. reflexivity. Qed.

Example Location_str_sample :
  Location_str (mkLocation (OStr "a.xsh") (OInt 3) (OInt 14)) = "a.xsh:3:14"
  ∧ Location_str (mkLocation (OStr "a.xsh") (OInt 3) ONone) = "a.xsh:3".
Proof. split; reflexivity. Qed.

End LocationFacts.

(** ** The parser *)

Section ParserFacts.

Import Parser.

Context {Tree : Type}.

(** [currloc] never returns: the lexer has no [fname], or the
    [Location] constructor fails. *)
Lemma currloc_raises (self : ParserObj Tree) (lineno column : obj) :
  currloc self lineno column = Raise (AttributeError "fname")
  ∨ currloc self lineno column = Raise (NameError "line").
Proof.
  unfold currloc, getattr.
  destruct (attrs (lexer (state self)) !! "fname"); [right | left]; reflexivity.
Qed.

(** The text [_parse_error] raises with. *)
Lemma _parse_error_text {A : Type} (msg loc : arg) :
  @_parse_error A msg loc
  = Raise (SyntaxError (str_arg loc +:+ ": " +:+ str_arg msg)).
Proof. reflexivity. Qed.

(** At the end of the input [p_error] raises the fixed notice. *)
Lemma p_error_end_of_input {A : Type} (self : ParserObj Tree) :
  @p_error Tree A self None = Raise (SyntaxError ": no further code").
Proof. reflexivity. Qed.

(** C7 (an offending token is present): [p_error] does not reach
    [_parse_error].  Building the location fails first, with
    [AttributeError] when the lexer has no attribute [fname] and with the
    [NameError] of [Location.__init__] otherwise, so the failure is no
    [SyntaxError] and carries no [location: message] text. *)
Theorem p_error_with_token_raises {A : Type} (self : ParserObj Tree)
    (tok : Token) :
  ∃ e, @p_error Tree A self (Some tok) = Raise e
       ∧ (e = AttributeError "fname" ∨ e = NameError "line")
       ∧ is_SyntaxError e = false.
Proof.
  unfold p_error.
  destruct (currloc_raises self (tok_lineno tok)
              (token_col (lexer (state self)) tok)) as [-> | ->].
  - eexists. split; [reflexivity|]. split; [by left | reflexivity].
  - eexists. split; [reflexivity|]. split; [by right | reflexivity].
Qed.

(** The lexer's error callback fails in the same way. *)
Lemma _lexer_errfunc_raises {A : Type} (self : ParserObj Tree)
    (msg line column : obj) :
  ∃ e, @_lexer_errfunc Tree A self msg line column = Raise e
       ∧ is_SyntaxError e = false.
Proof.
  unfold _lexer_errfunc.
  destruct (currloc_raises self line column) as [-> | ->];
    eexists; split; reflexivity.
Qed.

(** Were the location built, the message would still be the text of a
    1-tuple: the assignment to [msg] ends in a comma. *)
Example _parse_error_tuple_text :
  @_parse_error unit (AObj (OTuple [OStr "code: x"]))
     (ALoc (mkLocation (OStr "<code>") (OInt 1) (OInt 3)))
  = Raise (SyntaxError "<code>:1:3: ('code: x',)").
Proof. reflexivity. Qed.

(** The state [parse] hands on has a fresh scope stack and the lexer
    attributes set anew, whatever the state before. *)
Lemma parse_reset_fresh (st : PState) (filename : string) :
  _scope_stack (parse_reset st filename) = [∅]
  ∧ _last_yielded_token (parse_reset st filename) = None
  ∧ attrs (lexer (parse_reset st filename)) !! "filename" = Some (OStr filename)
  ∧ attrs (lexer (parse_reset st filename)) !! "lineno" = Some (OInt 0).
Proof.
  unfold parse_reset, setattr; simpl. repeat split.
  - rewrite lookup_insert_ne; [|done]. apply lookup_insert_eq.
  - apply lookup_insert_eq.
Qed.

(** The scope stack and the token a state holds play no part in the
    reset. *)
Lemma parse_reset_forgets (lx : LexerObj) stack stack' tok tok' filename :
  parse_reset (mkPState lx stack tok) filename
  = parse_reset (mkPState lx stack' tok') filename.
Proof. reflexivity. Qed.

(** C8: every call to [parse] first sets the lexer's file name and line
    and replaces the scope stack by one empty scope; the grammar engine,
    when [parse] gets to it, starts on that state.  So the outcome of a
    call does not depend on the scope stack the parser had before, and a
    second call on the same parser runs as on a parser whose scope stack
    is fresh. *)
Theorem parse_resets_scope_stack (self : ParserObj Tree) (s filename : string)
    (debug_level : Z) :
  let st0 := parse_reset (state self) filename in
  _scope_stack st0 = [∅]
  ∧ attrs (lexer st0) !! "filename" = Some (OStr filename)
  ∧ attrs (lexer st0) !! "lineno" = Some (OInt 0)
  ∧ parse self s filename debug_level
    = match cparser self with
      | None => (Raise (AttributeError "cparser"), with_state self st0)
      | Some engine =>
          (fst (engine s debug_level st0),
           with_state self (snd (engine s debug_level st0)))
      end
  ∧ (∀ stack,
       parse (with_state self
                (mkPState (lexer (state self)) stack
                   (_last_yielded_token (state self))))
             s filename debug_level
       = parse self s filename debug_level)
  ∧ (∀ s1 filename1 debug1,
       let self1 := snd (parse self s1 filename1 debug1) in
       parse self1 s filename debug_level
       = parse (with_state self1
                  (mkPState (lexer (state self1)) [∅]
                     (_last_yielded_token (state self1))))
               s filename debug_level).
Proof.
  intros st0.
  destruct (parse_reset_fresh (state self) filename) as (Hs & _ & Hf & Hl).
  split; [exact Hs|]. split; [exact Hf|]. split; [exact Hl|].
  split; [|split].
  - unfold parse. fold st0. destruct (cparser self) as [engine|]; [|done].
    by destruct (engine s debug_level st0).
  - intros stack. by destruct self as [[lx stk tok] toks eng ceng].
  - intros s1 filename1 debug1 self1.
    by destruct self1 as [[lx stk tok] toks eng ceng].
Qed.

(** [parse] leaves the attribute [cparser] as it found it. *)
Lemma parse_keeps_cparser (self : ParserObj Tree) s filename debug_level :
  cparser (snd (parse self s filename debug_level)) = cparser self.
Proof.
  unfold parse. destruct (cparser self) as [engine|] eqn:E; [|by simpl].
  by destruct (engine s debug_level _).
Qed.

(** C9 (no expression is accepted): [__init__] binds the grammar engine
    to [parser] while [parse] reads [cparser], so on a parser as
    constructed every call to [parse] - the first and each later one -
    raises [AttributeError] before the engine and its precedence table
    come into play; ["1 + 2 * 3"] is not parsed, let alone grouped. *)
Theorem parse_after_init_raises (lexer : LexerObj) (toks : list string)
    (engine : Engine Tree) (s filename : string) (debug_level : Z) :
  let self := Parser_init lexer toks engine in
  fst (parse self s filename debug_level) = Raise (AttributeError "cparser")
  ∧ ∀ s' filename' debug',
      fst (parse (snd (parse self s filename debug_level)) s' filename' debug')
      = Raise (AttributeError "cparser").
Proof. split; reflexivity. Qed.

Example parse_sum_product (lexer : LexerObj) (engine : Engine Tree) :
  fst (parse (Parser_init lexer [] engine) "1 + 2 * 3" "<code>" 0)
  = Raise (AttributeError "cparser").
Proof. reflexivity. Qed.

End ParserFacts.

(** ** The precedence table *)

Section PrecedenceFacts.

Import Parser.

(** Every entry of the table is left-associative. *)
Lemma precedence_all_left :
  Forall (λ entry, fst entry = "left") precedence.
Proof. repeat constructor. Qed.

(** The table runs from the loosest operators to the tightest: [PLUS]
    and [MINUS] share the ninth entry, [TIMES] sits in the tenth, [POW]
    in the last. *)
Lemma precedence_positions :
  prec_of "LOGIC_OR" = Some ("left", 1)
  ∧ prec_of "PLUS" = Some ("left", 9)
  ∧ prec_of "MINUS" = Some ("left", 9)
  ∧ prec_of "TIMES" = Some ("left", 10)
  ∧ prec_of "POW" = Some ("left", 11).
Proof. repeat split. Qed.

End PrecedenceFacts.

(** * Further properties of the code *)

(** ** The completer *)

Section CompleterMore.

Import Completer.

Context {World : Type}.
Variables (prefix line : string) (begidx endidx : Z) (ctx : gset string).

#[local] Abbreviation loop :=
  (for_each (World:=World) prefix line begidx endidx ctx).

(** A value that passes the test of line 49 sorts into a non-empty
    list. *)
Lemma has_candidates_true_sorts c :
  has_candidates c = OK true →
  ∃ xs, py_sorted c = OK (sorted_strs xs) ∧ xs ≠ [].
Proof.
  destruct c as [| n | s | xs | xs | xs]; simpl; try done.
  - destruct s as [| a s]; [done|]. intros _. by eexists.
  - intros H. eexists. split; [done|]. intros Hel.
    apply elements_empty_inv, leibniz_equiv in Hel. subst xs.
    by rewrite size_empty in H.
  - destruct xs as [| a xs]; [done|]. intros _. by eexists.
  - destruct xs as [| a xs]; [done|]. intros _. by eexists.
Qed.

Lemma interpret_not_stop out :
  interpret prefix out ≠ Raise StopIteration.
Proof.
  unfold interpret.
  destruct out as [[| n | s | xs | xs | xs] | a b]; simpl; try done.
  - by destruct (chars s) as [| a [| b [| c l]]].
  - by destruct xs as [| a [| b [| c l]]].
  - by destruct xs as [| a [| b [| c l]]].
Qed.

Lemma has_candidates_not_stop c : has_candidates c ≠ Raise StopIteration.
Proof. by destruct c. Qed.

Lemma loop_never_stops funcs :
  ∀ l (w : World), fst (loop funcs l w) ≠ Raise StopIteration.
Proof.
  induction funcs as [| func rest IH]; intros l w; simpl.
  - by destruct l.
  - destruct (func prefix line begidx endidx ctx w) as [[out | e] w1].
    + pose proof (interpret_not_stop out) as Hi.
      destruct (interpret prefix out) as [[c lp] | e]; [|simpl; congruence].
      pose proof (has_candidates_not_stop c) as Hc.
      destruct (has_candidates c) as [[|] | e] eqn:E; [| apply IH | simpl; congruence].
      destruct (has_candidates_true_sorts c E) as (xs & -> & _). done.
    + destruct e; simpl; done.
Qed.

Lemma loop_result_shape funcs :
  ∀ l (w : World) c lp w',
    loop funcs l w = (OK (c, lp), w') →
    c = VSet ∅ ∨ ∃ ys, c = VTuple ys ∧ ys ≠ [] ∧ Sorted str_le ys.
Proof.
  induction funcs as [| func rest IH]; intros l w c lp w'; simpl.
  - destruct l; [|done]. intros [= <- _ _]. by left.
  - destruct (func prefix line begidx endidx ctx w) as [[out | e] w1].
    + destruct (interpret prefix out) as [[c0 lp0] | e]; [|done].
      destruct (has_candidates c0) as [[|] | e] eqn:E; [| apply IH | done].
      destruct (has_candidates_true_sorts c0 E) as (xs & -> & Hxs).
      intros [= <- _ _]. right. eexists. split; [done|]. split.
      * by apply sorted_strs_nonempty.
      * apply sorted_strs_Sorted.
    + destruct (is_StopIteration e); [|done]. intros [= <- _ _]. by left.
Qed.

Lemma loop_calls_prefix funcs :
  ∀ l (w : World),
    ∃ called rest,
      funcs = called ++ rest ∧
      snd (loop funcs l w) = calls prefix line begidx endidx ctx called w ∧
      (funcs ≠ [] → called ≠ []).
Proof.
  induction funcs as [| func rest IH]; intros l w.
  - exists [], []. by repeat split.
  - simpl.
    destruct (func prefix line begidx endidx ctx w) as [[out | e] w1] eqn:Ecall.
    + assert (∀ r : result (value * value),
                ∃ called rest0,
                  func :: rest = called ++ rest0 ∧
                  snd (r, w1) = calls prefix line begidx endidx ctx called w ∧
                  (func :: rest ≠ [] → called ≠ [])) as Hstop.
      { intros r. exists [func], rest. simpl. rewrite Ecall. by repeat split. }
      destruct (interpret prefix out) as [[c lp] | e]; [|apply Hstop].
      destruct (has_candidates c) as [[|] | e]; [apply Hstop | | apply Hstop].
      destruct (IH (Some lp) w1) as (called & rest0 & -> & Hw & _).
      exists (func :: called), rest0. simpl. rewrite Ecall. by repeat split.
    + exists [func], rest. simpl. rewrite Ecall.
      by destruct (is_StopIteration e); repeat split.
Qed.

Lemma loop_step_rejected func rest l (w w1 : World) out e :
  func prefix line begidx endidx ctx w = (Returns out, w1) →
  rejected out = Some e →
  loop (func :: rest) l w = (Raise e, w1).
Proof.
  intros Hcall Hrej. simpl. rewrite Hcall. unfold interpret.
  destruct out as [[| n | s | xs | xs | xs] | a b]; simpl in *; try done.
  - by injection Hrej as <-.
  - destruct s as [| a [| b [| c s]]]; simpl in *; try done;
      by injection Hrej as <-.
  - destruct xs as [| a [| b [| c xs]]]; simpl in *; try done;
      by injection Hrej as <-.
  - destruct xs as [| a [| b [| c xs]]]; simpl in *; try done;
      by injection Hrej as <-.
  - destruct a; try done. by injection Hrej as <-.
Qed.

End CompleterMore.

Section CompleterExtras.

Import Completer.

Context {World : Type}.

(** X1: on a registry with at least one provider, all of which return an
    empty or absent collection, [complete] returns the empty set with
    the replacement length of the last provider: the one it gave in a
    pair, or the length of the prefix when it returned a bare value -
    whatever lengths earlier providers gave. *)
Theorem complete_fallback_last_length prefix line begidx endidx ctx
    (reg : Registry World) name func w w1 w2 l1 out c lp :
  consulted_empty prefix line begidx endidx (ctx_or_empty ctx)
    (values reg) w None w1 l1 →
  func prefix line begidx endidx (ctx_or_empty ctx) w1 = (Returns out, w2) →
  yields prefix out c lp →
  empty_or_absent c = true →
  complete prefix line begidx endidx ctx (reg ++ [(name, func)]) w
    = (OK (VSet ∅, lp), w2).
Proof.
  intros Hpre Hcall Hy He. unfold complete. rewrite values_app. simpl.
  rewrite (for_each_skip _ _ _ _ _ _ _ _ _ _ _ Hpre).
  by rewrite (for_each_step_empty _ _ _ _ _ _ _ _ _ _ _ _ _ Hcall Hy He).
Qed.

(** X2: [complete] never raises [StopIteration] itself: the abort signal
    of a provider is always turned into a result, and the exceptions
    [complete] raises on its own account are others. *)
Theorem complete_never_raises_StopIteration prefix line begidx endidx ctx
    (reg : Registry World) (w : World) :
  fst (complete prefix line begidx endidx ctx reg w) ≠ Raise StopIteration.
Proof. apply loop_never_stops. Qed.

(** X3: whenever [complete] returns, the candidates are either the empty
    set or a non-empty tuple in ascending order - whatever the providers
    returned or raised on the way. *)
Theorem complete_result_shape prefix line begidx endidx ctx
    (reg : Registry World) (w w' : World) c lp :
  complete prefix line begidx endidx ctx reg w = (OK (c, lp), w') →
  c = VSet ∅ ∨ ∃ ys, c = VTuple ys ∧ ys ≠ [] ∧ Sorted str_le ys.
Proof. apply loop_result_shape. Qed.

(** X4: [complete] calls the providers of an initial stretch of the
    registry, each once and in registration order, and nothing else
    changes the world; with a provider registered, at least the first
    one is called. *)
Theorem complete_calls_initial_stretch prefix line begidx endidx ctx
    (reg : Registry World) (w : World) :
  ∃ called rest,
    values reg = called ++ rest ∧
    snd (complete prefix line begidx endidx ctx reg w)
      = calls prefix line begidx endidx (ctx_or_empty ctx) called w ∧
    (reg ≠ [] → called ≠ []).
Proof.
  destruct (loop_calls_prefix prefix line begidx endidx (ctx_or_empty ctx)
              (values reg) None w) as (called & rest & Hv & Hw & Hne).
  exists called, rest. split; [done|]. split; [done|].
  intros Hreg. apply Hne. by destruct reg.
Qed.

(** X5: a reached provider whose return value [complete] cannot digest
    makes it raise: [TypeError] for an integer (bare, or first in a
    pair), [ValueError] for a bare string, list or tuple that does not
    have exactly two items; no later provider is called. *)
Theorem complete_rejects_malformed prefix line begidx endidx ctx
    (pre post : Registry World) name func w w1 w2 l1 out e :
  consulted_empty prefix line begidx endidx (ctx_or_empty ctx)
    (values pre) w None w1 l1 →
  func prefix line begidx endidx (ctx_or_empty ctx) w1 = (Returns out, w2) →
  rejected out = Some e →
  complete prefix line begidx endidx ctx (pre ++ (name, func) :: post) w
    = (Raise e, w2)
  ∧ (e = TypeError ∨ e = ValueError).
Proof.
  intros Hpre Hcall Hrej. split.
  - unfold complete. rewrite values_app. simpl values.
    rewrite (for_each_skip _ _ _ _ _ _ _ _ _ _ _ Hpre).
    by eapply loop_step_rejected.
  - destruct out as [[| n | s | xs | xs | xs] | a b]; simpl in Hrej;
      try done.
    + injection Hrej as <-. by left.
    + destruct (Nat.eqb _ _); [done|]. injection Hrej as <-. by right.
    + destruct (Nat.eqb _ _); [done|]. injection Hrej as <-. by right.
    + destruct (Nat.eqb _ _); [done|]. injection Hrej as <-. by right.
    + destruct a; try done. injection Hrej as <-. by left.
Qed.

End CompleterExtras.

(** ** Text of locations *)

Section LocationText.

Import Parser.

Lemma app_nil_str (b : string) : EmptyString +:+ b = b.
Proof. reflexivity. Qed.

Lemma app_cons_str (c : ascii) (a b : string) :
  String c a +:+ b = String c (a +:+ b).
Proof. reflexivity. Qed.

Lemma append_assoc_str (a b c : string) : (a +:+ b) +:+ c = a +:+ (b +:+ c).
Proof.
  induction a as [| ch a IH]; [done|].
  rewrite !app_cons_str. by rewrite IH.
Qed.

Lemma has_char_app (c : ascii) (a b : string) :
  has_char c (a +:+ b) = (has_char c a || has_char c b)%bool.
Proof.
  induction a as [| ch a IH]; [done|].
  rewrite app_cons_str. simpl. rewrite IH. by rewrite orb_assoc.
Qed.

Lemma has_char_here (c : ascii) (s : string) : has_char c (String c s) = true.
Proof. simpl. by rewrite Ascii.eqb_refl. Qed.

(** Two texts cut at their first colon agree piecewise. *)
Lemma split_at_colon (a b r r' : string) :
  has_char ":" a = false →
  has_char ":" b = false →
  a +:+ String ":" r = b +:+ String ":" r' →
  a = b ∧ r = r'.
Proof.
  revert b. induction a as [| c a IH]; intros [| d b] Ha Hb;
    rewrite ?app_cons_str, ?app_nil_str.
  - by intros [= ->].
  - intros [= <- _]. by rewrite has_char_here in Hb.
  - intros [= -> _]. by rewrite has_char_here in Ha.
  - intros [= -> Heq]. simpl in Ha, Hb.
    apply orb_false_elim in Ha as [_ Ha]. apply orb_false_elim in Hb as [_ Hb].
    destruct (IH b Ha Hb Heq) as [-> ->]. done.
Qed.

Lemma pretty_N_go_no_colon (x : N) (s : string) :
  has_char ":" s = false → has_char ":" (pretty_N_go x s) = false.
Proof.
  revert s. induction (N.lt_wf_0 x) as [x _ IH]; intros s Hs.
  assert (x = 0 ∨ 0 < x)%N as [-> | Hx] by lia.
  - by rewrite pretty_N_go_0.
  - rewrite pretty_N_go_step by done. apply IH.
    { by apply N.div_lt. }
    simpl. rewrite Hs. unfold pretty_N_char. by repeat case_match.
Qed.

Lemma pretty_Z_no_colon (z : Z) : has_char ":" (pretty z) = false.
Proof.
  assert (∀ p : positive, has_char ":" (pretty p) = false) as Hpos.
  { intros p. unfold pretty, pretty_positive, pretty, pretty_N.
    case_decide; [done|]. by apply pretty_N_go_no_colon. }
  destruct z as [| p | p]; unfold pretty, pretty_Z; [done | apply Hpos |].
  rewrite has_char_app, Hpos. done.
Qed.

(** X6: formatting a location loses nothing when the file name holds no
    colon: two locations with integer lines and absent or integer
    columns that format to the same text have the same file name, line
    and column. *)
Theorem Location_str_injective (f1 f2 : string) (n1 n2 : Z)
    (c1 c2 : option Z) :
  has_char ":" f1 = false →
  has_char ":" f2 = false →
  Location_str (mkLocation (OStr f1) (OInt n1) (column_obj c1))
  = Location_str (mkLocation (OStr f2) (OInt n2) (column_obj c2)) →
  f1 = f2 ∧ n1 = n2 ∧ c1 = c2.
Proof.
  intros Hf1 Hf2.
  pose proof (pretty_Z_no_colon n1) as Hn1.
  pose proof (pretty_Z_no_colon n2) as Hn2.
  destruct c1 as [c1|], c2 as [c2|]; unfold Location_str; simpl;
    rewrite ?append_assoc_str, ?app_cons_str, ?app_nil_str; intros Heq;
    apply split_at_colon in Heq as [-> Heq]; try done.
  - apply split_at_colon in Heq as [Hn Hc]; try done.
    apply (inj pretty) in Hn. apply (inj pretty) in Hc. by subst.
  - exfalso. rewrite <- Heq in Hn2.
    rewrite has_char_app, has_char_here in Hn2.
    by rewrite orb_true_r in Hn2.
  - exfalso. rewrite Heq in Hn1.
    rewrite has_char_app, has_char_here in Hn1.
    by rewrite orb_true_r in Hn1.
  - apply (inj pretty) in Heq. by subst.
Qed.

Lemma Location_str_injective_witness :
  Location_str (mkLocation (OStr "a.xsh") (OInt 3) (column_obj (Some 14%Z)))
  = Location_str (mkLocation (OStr "a.xsh") (OInt 3) (column_obj (Some 14%Z)))
  ∧ ("a.xsh" = "a.xsh" ∧ 3%Z = 3%Z ∧ Some 14%Z = Some 14%Z).
Proof.
  split; [reflexivity|].
  apply (Location_str_injective "a.xsh" "a.xsh" 3 3 (Some 14%Z) (Some 14%Z));
    reflexivity.
Defined.

(** With a colon in the file name the text is ambiguous. *)
Example Location_str_colon_clash :
  Location_str (mkLocation (OStr "a:1") (OInt 2) ONone)
  = Location_str (mkLocation (OStr "a") (OInt 1) (OInt 2)).
Proof. reflexivity. Qed.

End LocationText.

(** ** The parser, further *)

Section ParserExtras.

Import Parser.

Context {Tree : Type}.

Lemma currloc_outcome (self : ParserObj Tree) (lineno column : obj) :
  currloc self lineno column
  = match attrs (lexer (state self)) !! "fname" with
    | None => Raise (AttributeError "fname")
    | Some _ => Raise (NameError "line")
    end.
Proof.
  unfold currloc, getattr.
  by destruct (attrs (lexer (state self)) !! "fname").
Qed.

(** With no [cparser], [parse] leaves every lexer attribute but
    [filename] and [lineno] alone. *)
Lemma parse_keeps_attr (self : ParserObj Tree) (s filename : string)
    (debug_level : Z) (k : string) :
  cparser self = None →
  k ≠ "filename" →
  k ≠ "lineno" →
  attrs (lexer (state (snd (parse self s filename debug_level)))) !! k
  = attrs (lexer (state self)) !! k.
Proof.
  intros Hc Hk1 Hk2. unfold parse. rewrite Hc. simpl.
  by rewrite !lookup_insert_ne.
Qed.

(** X7: [currloc] returns on no input.  It raises [AttributeError] when
    the lexer has no attribute [fname], and otherwise the [NameError] of
    the [Location] constructor - whatever line and column it is given. *)
Theorem currloc_never_returns (self : ParserObj Tree) (lineno column : obj) :
  currloc self lineno column
  = match attrs (lexer (state self)) !! "fname" with
    | None => Raise (AttributeError "fname")
    | Some _ => Raise (NameError "line")
    end.
Proof. apply currloc_outcome. Qed.

(** X8: the callback [_lexer_errfunc], through which the lexer reports
    an illegal character, never raises the [SyntaxError] it is meant to:
    it fails like [currloc], before [_parse_error] is reached, and the
    lexer's message is lost. *)
Theorem _lexer_errfunc_loses_message {A : Type} (self : ParserObj Tree)
    (msg line column : obj) :
  @_lexer_errfunc Tree A self msg line column
  = match attrs (lexer (state self)) !! "fname" with
    | None => Raise (AttributeError "fname")
    | Some _ => Raise (NameError "line")
    end
  ∧ ∀ msg', @_lexer_errfunc Tree A self msg' line column
            = @_lexer_errfunc Tree A self msg line column.
Proof.
  unfold _lexer_errfunc. rewrite !currloc_outcome.
  split; [|intros msg'];
    by destruct (attrs (lexer (state self)) !! "fname").
Qed.

(** X9: [parse] changes two attributes of the lexer, [filename] and
    [lineno], and no other; the token list and the engine attributes of
    the parser stay as they were.  (Stated for a parser without
    [cparser], where no engine runs.) *)
Theorem parse_frame (self : ParserObj Tree) (s filename : string)
    (debug_level : Z) (k : string) :
  cparser self = None →
  k ≠ "filename" →
  k ≠ "lineno" →
  let self' := snd (parse self s filename debug_level) in
  attrs (lexer (state self')) !! k = attrs (lexer (state self)) !! k
  ∧ tokens self' = tokens self
  ∧ cparser self' = None.
Proof.
  intros Hc Hk1 Hk2. split; [by apply parse_keeps_attr|].
  unfold parse. rewrite Hc. by split.
Qed.

(** X10: the file name handed to [parse] is stored under [filename],
    while [currloc] reads [fname] and [_yacc_lookahead_token] reads
    [last]: what these two return is the same after a call to [parse] as
    before it, for any file name. *)
Theorem parse_filename_unused (self : ParserObj Tree) (s filename : string)
    (debug_level : Z) (lineno column : obj) :
  cparser self = None →
  let self' := snd (parse self s filename debug_level) in
  currloc self' lineno column = currloc self lineno column
  ∧ _yacc_lookahead_token self' = _yacc_lookahead_token self.
Proof.
  intros Hc self'.
  assert (attrs (lexer (state self')) !! "fname"
          = attrs (lexer (state self)) !! "fname") as Hf
    by (by apply parse_keeps_attr).
  assert (attrs (lexer (state self')) !! "last"
          = attrs (lexer (state self)) !! "last") as Hl
    by (by apply parse_keeps_attr).
  unfold currloc, _yacc_lookahead_token, getattr. by rewrite Hf, Hl.
Qed.

(** X11: a call to [parse] wipes out what the call before it left: after
    two calls the parser is in the state the second call alone would
    have put it in. *)
Theorem parse_twice (self : ParserObj Tree) (s1 s2 filename1 filename2 : string)
    (debug1 debug2 : Z) :
  cparser self = None →
  snd (parse (snd (parse self s1 filename1 debug1)) s2 filename2 debug2)
  = snd (parse self s2 filename2 debug2).
Proof.
  intros Hc. destruct self as [[[m col] stk tok] toks eng ceng].
  simpl in Hc. subst ceng.
  unfold parse, with_state, parse_reset, setattr. simpl.
  do 2 f_equal. f_equal.
  apply map_eq. intros k.
  destruct (decide (k = "lineno")) as [-> | Hl];
    [by rewrite !lookup_insert_eq|].
  rewrite !(lookup_insert_ne _ "lineno") by done.
  destruct (decide (k = "filename")) as [-> | Hf];
    [by rewrite !lookup_insert_eq|].
  by rewrite !lookup_insert_ne by done.
Qed.

(** X12: at the end of the input, where the engine hands [p_error] no
    token, the error is a [SyntaxError] whose text is the notice
    [": no further code"], with nothing in front of the colon: no file
    name and no line, on any parser. *)
Theorem p_error_without_token {A : Type} (self : ParserObj Tree) :
  @p_error Tree A self None = Raise (SyntaxError ": no further code").
Proof. reflexivity. Qed.

End ParserExtras.

Section ParserSamples.

Import Parser.

Lemma parse_frame_witness :
  let self : ParserObj unit :=
    Parser_init (mkLexer {["fname" := OStr "old.xsh"]} (λ _, OInt 0)) []
      (λ _ _ st, (Raise TypeError, st)) in
  attrs (lexer (state (snd (parse self "1" "new.xsh" 0)))) !! "fname"
  = Some (OStr "old.xsh").
Proof.
  intros self.
  refine (eq_trans (proj1 (parse_frame self "1" "new.xsh" 0 "fname" _ _ _)) _).
  - reflexivity.
  - discriminate.
  - discriminate.
  - reflexivity.
Defined.

Lemma parse_filename_unused_witness :
  let self : ParserObj unit :=
    Parser_init (mkLexer {["last" := OOpaque "LexToken(NAME,'x',1,0)"]}
                   (λ _, OInt 0)) []
      (λ _ _ st, (Raise TypeError, st)) in
  _yacc_lookahead_token (snd (parse self "1" "new.xsh" 0))
  = OK (OOpaque "LexToken(NAME,'x',1,0)").
Proof.
  intros self.
  refine (eq_trans
            (proj2 (parse_filename_unused self "1" "new.xsh" 0 ONone ONone _)) _).
  - reflexivity.
  - reflexivity.
Defined.

Lemma parse_twice_witness :
  let self : ParserObj unit :=
    Parser_init (mkLexer ∅ (λ _, OInt 0)) [] (λ _ _ st, (Raise TypeError, st)) in
  attrs (lexer (state (snd (parse (snd (parse self "a" "first.xsh" 0))
                                  "b" "second.xsh" 0)))) !! "filename"
  = Some (OStr "second.xsh").
Proof.
  intros self.
  rewrite (parse_twice self "a" "b" "first.xsh" "second.xsh" 0 0 eq_refl).
  reflexivity.
Defined.

End ParserSamples.

(** ** The grammar tables *)

Section GrammarTables.

Import Parser.

(** X13: the precedence table is well formed for the grammar engine:
    all eleven entries are left-associative and its nineteen operator
    tokens are pairwise distinct, so every operator has one level. *)
Theorem precedence_well_formed :
  Forall (λ entry, fst entry = "left") precedence
  ∧ NoDup (concat (map snd precedence))
  ∧ length precedence = 11
  ∧ length (concat (map snd precedence)) = 19.
Proof.
  split; [repeat constructor|]. split; [|split; reflexivity].
  apply (bool_decide_unpack _). vm_compute. exact I.
Qed.

(** A later [def] of a name replaces every earlier one. *)
Lemma bind_defs_snoc (defs : list MethodDef) (d : MethodDef) :
  bind_defs (defs ++ [d]) = <[def_name d := d]> (bind_defs defs).
Proof. unfold bind_defs. by rewrite foldl_snoc. Qed.

Lemma bind_defs_last (defs later : list MethodDef) (d : MethodDef) :
  def_name d ∉ map def_name later →
  bind_defs (defs ++ d :: later) !! def_name d = Some d.
Proof.
  revert defs. induction later as [| e later IH] using rev_ind; intros defs Hd.
  - rewrite bind_defs_snoc. apply lookup_insert_eq.
  - rewrite map_app in Hd. simpl in Hd.
    change (d :: later ++ [e]) with ((d :: later) ++ [e]).
    rewrite (app_assoc defs (d :: later) [e]), bind_defs_snoc.
    rewrite lookup_insert_ne.
    + apply IH. intros Hin. apply Hd. apply elem_of_app. by left.
    + intros Heq. apply Hd. apply elem_of_app. right.
      rewrite Heq. apply list_elem_of_here.
Qed.

(** X14: forty methods of the class body are defined under the one name
    [p_].  Each [def] replaces the one before, so the class ends up with
    ten [p_] attributes for forty-nine definitions, and [p_] itself is
    the last of the forty, the method of line 406, whose docstring holds
    no rule: the thirty-nine before it, which carry the rules from
    [parameters] (line 192) to [suite] (line 401), are not attributes of
    the class. *)
Theorem Parser_rules_shadowed :
  length Parser_rule_defs = 49
  ∧ length (filter (λ d, def_name d = "p_") Parser_rule_defs) = 40
  ∧ dom Parser_rules
    = {["p_single_input"; "p_file_input"; "p_eval_input"; "p_decorator";
        "p_decorators"; "p_decorated"; "p_funcdef"; "p_"; "p_empty";
        "p_error"]}
  ∧ Parser_rules !! "p_" = Some (mkDef 406 "p_" (Some "
        "))
  ∧ length (filter (λ d, def_name d = "p_" ∧ def_line d ≠ 406)
              Parser_rule_defs) = 39
  ∧ Forall (λ d, def_name d = "p_" → def_line d ≠ 406 →
                 ∀ k, Parser_rules !! k ≠ Some d) Parser_rule_defs.
Proof.
  split; [reflexivity|]. split; [reflexivity|].
  split; [apply (bool_decide_unpack _); vm_compute; exact I|].
  assert (Parser_rules !! "p_" = Some (mkDef 406 "p_" (Some "
        "))) as Hp by (vm_compute; reflexivity).
  split; [exact Hp|]. split; [reflexivity|].
  apply Forall_forall. intros d _ Hname Hline k Hk.
  assert (k = "p_") as ->.
  { assert (def_name d = k) as <-; [|done].
    unfold Parser_rules, bind_defs in Hk. revert Hk.
    generalize Parser_rule_defs. intros defs.
    induction defs as [| e defs IH] using rev_ind; [done|].
    rewrite foldl_snoc.
    destruct (decide (def_name e = k)) as [<- | Hne].
    - rewrite lookup_insert_eq. by intros [= ->].
    - rewrite lookup_insert_ne by done. apply IH. }
  rewrite Hp in Hk. injection Hk as <-. by apply Hline.
Qed.

End GrammarTables.

(** ** The further properties on sample registries *)

Section CompleterSamplesMore.

Import Completer Samples.

(** [empty] gives the length 5 with its empty set, [none] after it gives
    none: the length of the prefix comes back, not 5. *)
Lemma complete_fallback_last_length_witness :
  complete "f" "f" 0 1 None ([("empty", p_empty_pair)] ++ [("none", p_none)]) []
    = (OK (VSet ∅, VInt 1), ["empty"; "none"]).
Proof.
  refine (complete_fallback_last_length "f" "f" 0 1 None
            [("empty", p_empty_pair)] "none" p_none
            [] ["empty"] ["empty"; "none"] (Some (VInt 5))
            (Bare VNone) VNone (VInt 1) _ _ _ _).
  - eapply consulted_cons;
      [reflexivity | apply yields_pair | reflexivity | apply consulted_nil].
  - reflexivity.
  - apply (yields_none "f").
  - reflexivity.
Defined.

Lemma complete_result_shape_witness :
  VTuple ["bar"; "foo"] = VSet ∅
  ∨ ∃ ys, VTuple ["bar"; "foo"] = VTuple ys ∧ ys ≠ [] ∧ Sorted str_le ys.
Proof.
  refine (complete_result_shape "f" "f" 0 1 None
            [("foobar", p_foobar); ("baz", p_baz)] [] ["foobar"]
            (VTuple ["bar"; "foo"]) (VInt 1) _).
  reflexivity.
Defined.

(** A bare list of three candidates after a provider without any. *)
Lemma complete_rejects_malformed_witness :
  complete "f" "f" 0 1 None
      ([("none", p_none)] ++ ("list3", p_list3) :: [("baz", p_baz)]) []
    = (Raise ValueError, ["none"; "list3"]).
Proof.
  refine (proj1 (complete_rejects_malformed "f" "f" 0 1 None
            [("none", p_none)] [("baz", p_baz)] "list3" p_list3
            [] ["none"] ["none"; "list3"] (Some (VInt 1))
            (Bare (VList ["foo"; "bar"; "baz"])) ValueError _ _ _)).
  - eapply consulted_cons;
      [reflexivity | apply yields_none | reflexivity | apply consulted_nil].
  - reflexivity.
  - reflexivity.
Defined.

End CompleterSamplesMore.
